(** * BinomialVanillaEngine_2 (project3/binomialengine.hpp)

    Shallow embedding of the binomial pricing engine whose tree has three
    nodes at the valuation time.  Reals are modelled as exact rationals [Q];
    the tree type [T] of the C++ template is an argument of the engine: a
    builder turning the flattened process, the maturity, the step count and
    the strike into a tree, or failing as a tree constructor may.
    [QL_REQUIRE] / [QL_ENSURE] raise, and so may the library calls the
    engine makes (market-data lookups, the tree, the theta helper), so the
    pricing call runs in a small state-and-error monad over the engine's
    [results_]. *)

From Stdlib Require Import ZArith QArith Qabs Lqa Arith List String Bool Lia.
Import ListNotations.
Open Scope Q_scope.

(** ** Errors *)

(** [QL_REQUIRE] raises a precondition error, [QL_ENSURE] a postcondition
    error.  The library's messages also print the offending numbers; only
    their fixed text is kept. *)
Inductive Error :=
| PreconditionError (msg : string)
| PostconditionError (msg : string).

(** A library call that returns a value or throws. *)
Definition bindE {A B} (x : Error + A) (k : A -> Error + B) : Error + B :=
  match x with
  | inl e => inl e
  | inr a => k a
  end.

Notation "x <-? m ;; k" := (bindE m (fun x => k))
  (at level 61, m at next level, right associativity).

(** ** Market data, as the engine reads it *)

Definition Date := Z.

Record DayCounter := { yearFraction : Date -> Date -> Q }.

(** [TermStructure::checkRange(const Date&, extrapolate)] with
    [extrapolate = false]: no date before the reference date, none past the
    last date of the curve unless it allows extrapolation.  [None] as last
    date is [Date::maxDate()]. *)
Definition checkRange (referenceDate : Date) (maxDate : option Date)
  (allowsExtrapolation : bool) (d : Date) : Error + unit :=
  if (d <? referenceDate)%Z then inl (PreconditionError "date before reference date")
  else match maxDate with
       | Some m =>
           if allowsExtrapolation || (d <=? m)%Z then inr tt
           else inl (PreconditionError "date is past max curve date")
       | None => inr tt
       end.

(** [TermStructure::checkRange(Time, extrapolate)]: no negative time, none
    past the last time of the curve unless it allows extrapolation. *)
Definition checkRangeTime (maxTime : option Q) (allowsExtrapolation : bool) (t : Q)
  : Error + unit :=
  if negb (Qle_bool 0 t) then inl (PreconditionError "negative time given")
  else match maxTime with
       | Some m =>
           if allowsExtrapolation || Qle_bool t m then inr tt
           else inl (PreconditionError "time is past max curve time")
       | None => inr tt
       end.

(** A yield term structure: day counter, reference date, last date,
    extrapolation flag and its continuous zero rate at a time from the
    reference date (which a curve may fail to compute). *)
Record YieldTermStructure := {
  yts_dayCounter : DayCounter;
  yts_referenceDate : Date;
  yts_maxDate : option Date;
  yts_allowsExtrapolation : bool;
  zeroRateAt : Q -> Error + Q
}.

(** [ts->zeroRate(d, dc, Continuous, NoFrequency)]: the range check of the
    date, then the continuous rate over [referenceDate, d]. *)
Definition zeroRate (ts : YieldTermStructure) (d : Date) (dc : DayCounter) : Error + Q :=
  _ <-? checkRange (yts_referenceDate ts) (yts_maxDate ts) (yts_allowsExtrapolation ts) d ;;
  zeroRateAt ts (yearFraction dc (yts_referenceDate ts) d).

(** [ts->zeroRate(t, Continuous)] at a time [t]. *)
Definition zeroRateTime (ts : YieldTermStructure) (t : Q) : Error + Q :=
  let maxTime := option_map (yearFraction (yts_dayCounter ts) (yts_referenceDate ts))
                            (yts_maxDate ts) in
  _ <-? checkRangeTime maxTime (yts_allowsExtrapolation ts) t ;;
  zeroRateAt ts t.

(** A Black volatility term structure: day counter, calendar, reference date,
    last date, extrapolation flag, strike domain ([None]: unbounded) and its
    volatility at a time and a strike. *)
Record BlackVolTermStructure := {
  bvts_dayCounter : DayCounter;
  bvts_calendar : nat;
  bvts_referenceDate : Date;
  bvts_maxDate : option Date;
  bvts_allowsExtrapolation : bool;
  bvts_minStrike : option Q;
  bvts_maxStrike : option Q;
  blackVolImpl : Q -> Q -> Error + Q
}.

(** [VolatilityTermStructure::checkStrike(k, extrapolate = false)] *)
Definition checkStrike (vol : BlackVolTermStructure) (k : Q) : Error + unit :=
  let above_min := match bvts_minStrike vol with Some m => Qle_bool m k | None => true end in
  let below_max := match bvts_maxStrike vol with Some m => Qle_bool k m | None => true end in
  if bvts_allowsExtrapolation vol || (above_min && below_max) then inr tt
  else inl (PreconditionError "strike is outside the curve domain").

(** [vol->blackVol(d, k)]: range check of the date, strike check, then the
    volatility at the time of [d]. *)
Definition blackVol (vol : BlackVolTermStructure) (d : Date) (k : Q) : Error + Q :=
  _ <-? checkRange (bvts_referenceDate vol) (bvts_maxDate vol) (bvts_allowsExtrapolation vol) d ;;
  _ <-? checkStrike vol k ;;
  blackVolImpl vol (yearFraction (bvts_dayCounter vol) (bvts_referenceDate vol) d) k.

Record GeneralizedBlackScholesProcess := {
  stateVariable : Q;
  dividendYield : YieldTermStructure;
  riskFreeRate : YieldTermStructure;
  blackVolatility : BlackVolTermStructure;
  (** [localVolatility()->localVol(t, x)], derived by the library from the
      Black volatility; it may fail (QuantLib's [LocalVolSurface] raises
      "negative local vol^2" on a surface that is not smooth enough) *)
  localVol : Q -> Q -> Error + Q
}.

(** [FlatForward(referenceDate, r, dc)]: no last date. *)
Definition FlatForward (ref : Date) (r : Q) (dc : DayCounter) : YieldTermStructure :=
  {| yts_dayCounter := dc; yts_referenceDate := ref; yts_maxDate := None;
     yts_allowsExtrapolation := false; zeroRateAt := fun _ => inr r |}.

(** [BlackConstantVol(referenceDate, cal, v, dc)]: no last date, every
    strike. *)
Definition BlackConstantVol (ref : Date) (cal : nat) (v : Q) (dc : DayCounter)
  : BlackVolTermStructure :=
  {| bvts_dayCounter := dc; bvts_calendar := cal; bvts_referenceDate := ref;
     bvts_maxDate := None; bvts_allowsExtrapolation := false;
     bvts_minStrike := None; bvts_maxStrike := None;
     blackVolImpl := fun _ _ => inr v |}.

(** [new GeneralizedBlackScholesProcess(x0, div, rf, vol)] over a constant
    volatility: its local volatility is that constant. *)
Definition mkFlatProcess (x0 : Q) (div rf : YieldTermStructure) (v : Q)
  (vol : BlackVolTermStructure) : GeneralizedBlackScholesProcess :=
  {| stateVariable := x0; dividendYield := div; riskFreeRate := rf;
     blackVolatility := vol; localVol := fun _ _ => inr v |}.

(** [process.time(d)] *)
Definition process_time (p : GeneralizedBlackScholesProcess) (d : Date) : Q :=
  yearFraction (yts_dayCounter (riskFreeRate p)) (yts_referenceDate (riskFreeRate p)) d.

(** ** Instrument arguments *)

Inductive OptionType := Call | Put.

Inductive Payoff :=
| PlainVanillaPayoff (ty : OptionType) (strike : Q)
| OtherPayoff (f : Q -> Q).

Definition qmax (a b : Q) : Q := if Qle_bool b a then a else b.

Definition payoff_value (po : Payoff) (price : Q) : Q :=
  match po with
  | PlainVanillaPayoff Call k => qmax (price - k) 0
  | PlainVanillaPayoff Put k => qmax (k - price) 0
  | OtherPayoff f => f price
  end.

Inductive ExerciseType := European | American | Bermudan.

Record Exercise := { ex_type : ExerciseType; ex_dates : list Date }.

(** [exercise->lastDate()] is [dates_.back()]. *)
Definition lastDate (e : Exercise) : Date := last (ex_dates e) 0%Z.

Record Arguments := { payoff : Payoff; exercise : Exercise }.

(** ** Results and the calculation monad *)

Record Results := {
  res_value : option Q; res_delta : option Q;
  res_gamma : option Q; res_theta : option Q
}.

Definition M (A : Type) : Type := Results -> (Error + A) * Results.

Definition ret {A} (a : A) : M A := fun s => (inr a, s).

Definition bind {A B} (m : M A) (k : A -> M B) : M B :=
  fun s => match m s with
           | (inl e, s') => (inl e, s')
           | (inr a, s') => k a s'
           end.

Notation "x <- m ;; k" := (bind m (fun x => k))
  (at level 61, m at next level, right associativity).
Notation "m ;;; k" := (bind m (fun _ => k))
  (at level 61, right associativity).

Definition QL_REQUIRE (b : bool) (msg : string) : M unit :=
  fun s => if b then (inr tt, s) else (inl (PreconditionError msg), s).

Definition QL_ENSURE (b : bool) (msg : string) : M unit :=
  fun s => if b then (inr tt, s) else (inl (PostconditionError msg), s).

Definition set_value (x : Q) : M unit :=
  fun s => (inr tt, {| res_value := Some x; res_delta := res_delta s;
                       res_gamma := res_gamma s; res_theta := res_theta s |}).
Definition set_delta (x : Q) : M unit :=
  fun s => (inr tt, {| res_value := res_value s; res_delta := Some x;
                       res_gamma := res_gamma s; res_theta := res_theta s |}).
Definition set_gamma (x : Q) : M unit :=
  fun s => (inr tt, {| res_value := res_value s; res_delta := res_delta s;
                       res_gamma := Some x; res_theta := res_theta s |}).
Definition set_theta (x : Q) : M unit :=
  fun s => (inr tt, {| res_value := res_value s; res_delta := res_delta s;
                       res_gamma := res_gamma s; res_theta := Some x |}).

(** A library call inside the pricing call: its error propagates. *)
Definition liftE {A} (x : Error + A) : M A := fun s => (x, s).

(** ** Time grid, tree and lattice *)

(** [TimeGrid(end, steps)]: [steps+1] uniform times [dt*i], [dt = end/steps]. *)
Record TimeGrid := { tg_end : Q; tg_steps : nat }.

Definition tg_dt (g : TimeGrid) : Q := tg_end g / inject_Z (Z.of_nat (tg_steps g)).
Definition tg_time (g : TimeGrid) (i : nat) : Q := tg_dt g * inject_Z (Z.of_nat i).

Definition mkTimeGrid (end_ : Q) (steps : nat) : M TimeGrid :=
  QL_REQUIRE (negb (Qle_bool end_ 0)) "negative times not allowed" ;;;
  ret {| tg_end := end_; tg_steps := steps |}.

(** [grid.closestIndex(t)]: the nearest grid index, the lower one on ties. *)
Fixpoint closest_from (g : TimeGrid) (t : Q) (best : nat) (i : nat) (fuel : nat) : nat :=
  match fuel with
  | O => best
  | S f =>
      let best' := if Qlt_le_dec (Qabs (tg_time g i - t)) (Qabs (tg_time g best - t))
                   then i else best in
      closest_from g t best' (S i) f
  end.

Definition closestTime (g : TimeGrid) (t : Q) : Q :=
  tg_time g (closest_from g t 0 1 (tg_steps g)).

(** The tree built by the template parameter [T]: node count per step, the
    underlying price at a node and the branch probabilities (branch 0 down,
    branch 1 up). *)
Record Tree := {
  size : nat -> nat;
  underlying : nat -> nat -> Q;
  probability : nat -> nat -> nat -> Q
}.

(** [BlackScholesLattice<T>(tree, riskFreeRate, end, steps)] *)
Record BlackScholesLattice := {
  lat_tree : Tree;
  lat_grid : TimeGrid;
  lat_discount : Q;
  lat_pd : Q;
  lat_pu : Q
}.

(** [lattice->stepback(i, values, newValues)]: the constant probabilities read
    at the root, descendants [j] and [j+1], one discount per step.  An index
    past the end of [values] is undefined behaviour in the C++ [Array]; it is
    read as [0] here. *)
Definition stepback (lat : BlackScholesLattice) (i : nat) (values : list Q) : list Q :=
  map (fun j => (lat_pd lat * nth j values 0 + lat_pu lat * nth (S j) values 0)
                * lat_discount lat)
      (seq 0 (size (lat_tree lat) i)).

(** [lattice->grid(t)] at step [i] *)
Definition lattice_grid (lat : BlackScholesLattice) (i : nat) : list Q :=
  map (underlying (lat_tree lat) i) (seq 0 (size (lat_tree lat) i)).

(** ** DiscretizedVanillaOption *)

Record DiscretizedVanillaOption := {
  dvo_arguments : Arguments;
  stoppingTimes : list Q
}.

(** The constructor maps the exercise dates to times of the process and
    snaps each to the closest time of the engine's grid. *)
Definition mkDiscretizedVanillaOption (args : Arguments)
  (p : GeneralizedBlackScholesProcess) (g : TimeGrid) : DiscretizedVanillaOption :=
  {| dvo_arguments := args;
     stoppingTimes := map (fun d => closestTime g (process_time p d))
                          (ex_dates (exercise args)) |}.

(** [applySpecificCondition()]: early exercise against the payoff. *)
Definition applySpecificCondition (o : DiscretizedVanillaOption)
  (lat : BlackScholesLattice) (i : nat) (values : list Q) : list Q :=
  let grid := lattice_grid lat i in
  map (fun j => qmax (nth j values 0) (payoff_value (payoff (dvo_arguments o)) (nth j grid 0)))
      (seq 0 (List.length values)).

(** [isOnTime(t)] at step [i] of the lattice grid. *)
Definition isOnTime (lat : BlackScholesLattice) (i : nat) (t : Q) : bool :=
  Qeq_bool (tg_time (lat_grid lat) i) t.

(** [postAdjustValuesImpl()] at step [i]. *)
Definition adjustValues (o : DiscretizedVanillaOption) (lat : BlackScholesLattice)
  (i : nat) (values : list Q) : list Q :=
  let now := tg_time (lat_grid lat) i in
  let st := stoppingTimes o in
  match ex_type (exercise (dvo_arguments o)) with
  | American =>
      if Qle_bool now (nth 1 st 0) && Qle_bool (nth 0 st 0) now
      then applySpecificCondition o lat i values else values
  | European =>
      if isOnTime lat i (nth 0 st 0) then applySpecificCondition o lat i values else values
  | Bermudan =>
      fold_left (fun vs s => if isOnTime lat i s then applySpecificCondition o lat i vs else vs)
                st values
  end.

(** [option.initialize(lattice, maturity)]: the maturity is the last grid
    time, step [N]; values reset to zero, then adjusted. *)
Definition initialize (o : DiscretizedVanillaOption) (lat : BlackScholesLattice) : list Q :=
  let n := tg_steps (lat_grid lat) in
  adjustValues o lat n (repeat 0 (size (lat_tree lat) n)).

(** [TreeLattice::partialRollback] followed by the final [adjustValues()] of
    [rollback]: for [i = iFrom-1] down to [iTo], step back then adjust (every
    step adjusted once). [rollback_steps k] goes from step [k] down to 0. *)
Fixpoint rollback_steps (o : DiscretizedVanillaOption) (lat : BlackScholesLattice)
  (k : nat) (values : list Q) : list Q :=
  match k with
  | O => values
  | S i => rollback_steps o lat i (adjustValues o lat i (stepback lat i values))
  end.

(** [option.rollback(0.0)] from the maturity. *)
Definition rollback_to_0 (o : DiscretizedVanillaOption) (lat : BlackScholesLattice)
  (values : list Q) : list Q :=
  rollback_steps o lat (tg_steps (lat_grid lat)) values.

(** ** Greeks helper of the library *)

(** [blackScholesTheta(p, value, delta, gamma)] (ql/pricingengines/greeks):
    the Black-Scholes equation solved for the time derivative, at time 0 and
    the current spot of [p]; the rate, dividend and local-volatility lookups
    may fail. *)
Definition blackScholesTheta (p : GeneralizedBlackScholesProcess)
  (value delta gamma : Q) : Error + Q :=
  let u := stateVariable p in
  r <-? zeroRateTime (riskFreeRate p) 0 ;;
  q <-? zeroRateTime (dividendYield p) 0 ;;
  v <-? localVol p 0 u ;;
  inr (r * value - (r - q) * u * delta - (1 # 2) * v * v * u * u * gamma).

(** ** The engine *)

Record BinomialVanillaEngine_2 := {
  process_ : GeneralizedBlackScholesProcess;
  timeSteps_ : nat
}.

(** The constructor. *)
Definition mkBinomialVanillaEngine_2 (process : GeneralizedBlackScholesProcess)
  (timeSteps : nat) : Error + BinomialVanillaEngine_2 :=
  if Nat.leb 2 timeSteps
  then inr {| process_ := process; timeSteps_ := timeSteps |}
  else inl (PreconditionError "at least 2 time steps required").

Section Engine.

(** [std::exp] on the rationals *)
Variable exp : Q -> Q.
(** [new T(bs, maturity, timeSteps_, strike)] *)
Variable T : GeneralizedBlackScholesProcess -> Q -> nat -> Q -> Error + Tree.

Definition mkBlackScholesLattice (tree : Tree) (r end_ : Q) (steps : nat)
  : M BlackScholesLattice :=
  g <- mkTimeGrid end_ steps ;;
  ret {| lat_tree := tree; lat_grid := g; lat_discount := exp (- r * tg_dt g);
         lat_pd := probability tree 0 0 0; lat_pu := probability tree 0 0 1 |}.

(** [BinomialVanillaEngine_2<T>::calculate()] *)
Definition calculate (eng : BinomialVanillaEngine_2) (arguments_ : Arguments) : M unit :=
  let process := process_ eng in
  let rfdc := yts_dayCounter (riskFreeRate process) in
  let divdc := yts_dayCounter (dividendYield process) in
  let voldc := bvts_dayCounter (blackVolatility process) in
  let volcal := bvts_calendar (blackVolatility process) in
  let s0 := stateVariable process in
  QL_REQUIRE (negb (Qle_bool s0 0)) "negative or null underlying given" ;;;
  v <- liftE (blackVol (blackVolatility process) (lastDate (exercise arguments_)) s0) ;;
  let maturityDate := lastDate (exercise arguments_) in
  r <- liftE (zeroRate (riskFreeRate process) maturityDate rfdc) ;;
  q <- liftE (zeroRate (dividendYield process) maturityDate divdc) ;;
  let referenceDate := yts_referenceDate (riskFreeRate process) in
  (* binomial trees with constant coefficient *)
  let flatRiskFree := FlatForward referenceDate r rfdc in
  let flatDividends := FlatForward referenceDate q divdc in
  let flatVol := BlackConstantVol referenceDate volcal v voldc in
  match payoff arguments_ with
  | OtherPayoff _ => QL_REQUIRE false "non-plain payoff given"
  | PlainVanillaPayoff _ strike =>
      let maturity := yearFraction rfdc referenceDate maturityDate in
      let bs := mkFlatProcess s0 flatDividends flatRiskFree v flatVol in
      grid <- mkTimeGrid maturity (timeSteps_ eng) ;;
      tree <- liftE (T bs maturity (timeSteps_ eng) strike) ;;
      lattice <- mkBlackScholesLattice tree r maturity (timeSteps_ eng) ;;
      let option := mkDiscretizedVanillaOption arguments_ process grid in
      (* Rollback to t=0 *)
      let va := rollback_to_0 option lattice (initialize option lattice) in
      QL_ENSURE (Nat.eqb (List.length va) 3) "Expect 3 nodes in grid at 0 step" ;;;
      let p0u := nth 2 va 0 in
      let p0 := nth 1 va 0 in
      let p0d := nth 0 va 0 in
      let s0u := underlying (lat_tree lattice) 0 2 in
      let s0d := underlying (lat_tree lattice) 0 0 in
      let delta := (p0u - p0d) / (s0u - s0d) in
      let delta0u := (p0u - p0) / (s0u - s0) in
      let delta0d := (p0d - p0) / (s0d - s0) in
      let gamma := (delta0u - delta0d) / ((s0u - s0d) / 2) in
      (* Store results *)
      set_value p0 ;;;
      set_delta delta ;;;
      set_gamma gamma ;;;
      theta <- liftE (blackScholesTheta process p0 delta gamma) ;;
      set_theta theta
  end.

End Engine.

(** ** The quantities of one pricing call

    The market data read from the input process, the flattened process
    handed to the tree builder, the maturity, the lattice and the node values
    after the rollback to time 0, as [calculate] computes them. *)

(** The volatility, rate and dividend yield read at the last exercise date
    (lines 86-92), in that order. *)
Definition market_inputs (eng : BinomialVanillaEngine_2) (args : Arguments)
  : Error + (Q * Q * Q) :=
  let p := process_ eng in
  let d := lastDate (exercise args) in
  v <-? blackVol (blackVolatility p) d (stateVariable p) ;;
  r <-? zeroRate (riskFreeRate p) d (yts_dayCounter (riskFreeRate p)) ;;
  q <-? zeroRate (dividendYield p) d (yts_dayCounter (dividendYield p)) ;;
  inr (v, r, q).

Definition flat_process (eng : BinomialVanillaEngine_2) (args : Arguments) (v r q : Q)
  : GeneralizedBlackScholesProcess :=
  let p := process_ eng in
  let ref := yts_referenceDate (riskFreeRate p) in
  mkFlatProcess (stateVariable p) (FlatForward ref q (yts_dayCounter (dividendYield p)))
    (FlatForward ref r (yts_dayCounter (riskFreeRate p))) v
    (BlackConstantVol ref (bvts_calendar (blackVolatility p)) v
                      (bvts_dayCounter (blackVolatility p))).

Definition call_maturity (eng : BinomialVanillaEngine_2) (args : Arguments) : Q :=
  let rf := riskFreeRate (process_ eng) in
  yearFraction (yts_dayCounter rf) (yts_referenceDate rf) (lastDate (exercise args)).

Definition call_grid (eng : BinomialVanillaEngine_2) (args : Arguments) : TimeGrid :=
  {| tg_end := call_maturity eng args; tg_steps := timeSteps_ eng |}.

Definition call_option (eng : BinomialVanillaEngine_2) (args : Arguments)
  : DiscretizedVanillaOption :=
  mkDiscretizedVanillaOption args (process_ eng) (call_grid eng args).

Definition call_lattice (exp : Q -> Q) (eng : BinomialVanillaEngine_2) (args : Arguments)
  (r : Q) (tree : Tree) : BlackScholesLattice :=
  {| lat_tree := tree; lat_grid := call_grid eng args;
     lat_discount := exp (- r * tg_dt (call_grid eng args));
     lat_pd := probability tree 0 0 0; lat_pu := probability tree 0 0 1 |}.

(** [option.values()] after [option.rollback(0.0)] *)
Definition values_at_0 (exp : Q -> Q) (eng : BinomialVanillaEngine_2) (args : Arguments)
  (r : Q) (tree : Tree) : list Q :=
  let lat := call_lattice exp eng args r tree in
  let o := call_option eng args in
  rollback_to_0 o lat (initialize o lat).

(** The delta and gamma of the code, from the three values at time 0, the
    two outer underlying prices of the tree at time 0 and the spot [s0]. *)
Definition node_delta (tree : Tree) (va : list Q) : Q :=
  (nth 2 va 0 - nth 0 va 0) / (underlying tree 0 2 - underlying tree 0 0).

Definition node_gamma (s0 : Q) (tree : Tree) (va : list Q) : Q :=
  let p0u := nth 2 va 0 in
  let p0 := nth 1 va 0 in
  let p0d := nth 0 va 0 in
  let s0u := underlying tree 0 2 in
  let s0d := underlying tree 0 0 in
  ((p0u - p0) / (s0u - s0) - (p0d - p0) / (s0d - s0)) / ((s0u - s0d) / 2).

(** [blackScholesTheta] as the call invokes it. *)
Definition call_theta (p : GeneralizedBlackScholesProcess) (tree : Tree) (va : list Q)
  : Error + Q :=
  blackScholesTheta p (nth 1 va 0) (node_delta tree va) (node_gamma (stateVariable p) tree va).

(** The results after value, delta and gamma are stored (lines 154-156),
    theta as it was. *)
Definition greeks_partial (p : GeneralizedBlackScholesProcess) (tree : Tree)
  (va : list Q) (s : Results) : Results :=
  {| res_value := Some (nth 1 va 0); res_delta := Some (node_delta tree va);
     res_gamma := Some (node_gamma (stateVariable p) tree va); res_theta := res_theta s |}.

(** The results a successful call stores. *)
Definition greeks_results (p : GeneralizedBlackScholesProcess) (tree : Tree)
  (va : list Q) (theta : Q) : Results :=
  {| res_value := Some (nth 1 va 0); res_delta := Some (node_delta tree va);
     res_gamma := Some (node_gamma (stateVariable p) tree va); res_theta := Some theta |}.

(** ** Sample market data and trees

    An actual/365 day counter, flat 5% rate, no dividends, 20% volatility,
    spot given; a first-order [exp]; a one-year European call at 100. *)

Definition actual365 : DayCounter :=
  {| yearFraction := fun d1 d2 => inject_Z (d2 - d1) / 365 |}.

Definition sample_process (spot : Q) : GeneralizedBlackScholesProcess :=
  {| stateVariable := spot;
     dividendYield := FlatForward 0%Z 0 actual365;
     riskFreeRate := FlatForward 0%Z (1 # 20) actual365;
     blackVolatility := BlackConstantVol 0%Z 0%nat (1 # 5) actual365;
     localVol := fun _ _ => inr (1 # 5) |}.

(** The same market, over a volatility surface whose local volatility the
    library cannot compute. *)
Definition rough_process (spot : Q) : GeneralizedBlackScholesProcess :=
  {| stateVariable := spot;
     dividendYield := FlatForward 0%Z 0 actual365;
     riskFreeRate := FlatForward 0%Z (1 # 20) actual365;
     blackVolatility := BlackConstantVol 0%Z 0%nat (1 # 5) actual365;
     localVol := fun _ _ => inl (PostconditionError "negative local vol^2") |}.

Definition exp_first_order (x : Q) : Q := 1 + x.

Definition up_factor : Q := 11 # 10.
Definition down_factor : Q := 10 # 11.

(** A tree constructor that never fails. *)
Definition total_builder (f : GeneralizedBlackScholesProcess -> Q -> nat -> Q -> Tree)
  : GeneralizedBlackScholesProcess -> Q -> nat -> Q -> Error + Tree :=
  fun bs m n k => inr (f bs m n k).

(** A tree shaped like the ones of ql/methods/lattices/binomialtree.hpp:
    [i+1] nodes at step [i], one node at the root. *)
Definition standard_tree (bs : GeneralizedBlackScholesProcess) (m : Q) (n : nat) (k : Q)
  : Tree :=
  {| size := fun i => S i;
     underlying := fun i j =>
       stateVariable bs * up_factor ^ Z.of_nat j * down_factor ^ (Z.of_nat i - Z.of_nat j);
     probability := fun _ _ _ => 1 # 2 |}.

(** A tree started two steps before time 0: [i+3] nodes at step [i], the
    middle node at time 0 on the spot. *)
Definition shifted_tree (bs : GeneralizedBlackScholesProcess) (m : Q) (n : nat) (k : Q)
  : Tree :=
  {| size := fun i => S (S (S i));
     underlying := fun i j =>
       stateVariable bs * up_factor ^ Z.of_nat j * down_factor ^ (Z.of_nat i + 2 - Z.of_nat j);
     probability := fun _ _ _ => 1 # 2 |}.

(** The same with a drift factor [21/20] on every node: the middle node at
    time 0 is above the spot. *)
Definition drifted_tree (bs : GeneralizedBlackScholesProcess) (m : Q) (n : nat) (k : Q)
  : Tree :=
  {| size := fun i => S (S (S i));
     underlying := fun i j =>
       (21 # 20) * stateVariable bs * up_factor ^ Z.of_nat j
       * down_factor ^ (Z.of_nat i + 2 - Z.of_nat j);
     probability := fun _ _ _ => 1 # 2 |}.

(** A shifted tree with up factor [u]. *)
Definition factor_tree (u : Q) (bs : GeneralizedBlackScholesProcess) : Tree :=
  {| size := fun i => S (S (S i));
     underlying := fun i j =>
       stateVariable bs * u ^ Z.of_nat j * (/ u) ^ (Z.of_nat i + 2 - Z.of_nat j);
     probability := fun _ _ _ => 1 # 2 |}.

(** Two builders whose up factor is [1 + sigma], [sigma] read from the
    process's volatility surface at the maturity and the spot or the
    strike. *)
Definition vol_tree_at_spot (bs : GeneralizedBlackScholesProcess) (m : Q) (n : nat) (k : Q)
  : Error + Tree :=
  sigma <-? blackVolImpl (blackVolatility bs) m (stateVariable bs) ;;
  inr (factor_tree (1 + sigma) bs).

Definition vol_tree_at_strike (bs : GeneralizedBlackScholesProcess) (m : Q) (n : nat) (k : Q)
  : Error + Tree :=
  sigma <-? blackVolImpl (blackVolatility bs) m k ;;
  inr (factor_tree (1 + sigma) bs).

Definition european_call : Arguments :=
  {| payoff := PlainVanillaPayoff Call 100;
     exercise := {| ex_type := European; ex_dates := [365%Z] |} |}.

Definition european_other : Arguments :=
  {| payoff := OtherPayoff (fun x => if Qle_bool 100 x then 1 else 0);
     exercise := {| ex_type := European; ex_dates := [365%Z] |} |}.

Definition sample_engine (spot : Q) (n : nat) : BinomialVanillaEngine_2 :=
  {| process_ := sample_process spot; timeSteps_ := n |}.

Definition rough_engine (spot : Q) (n : nat) : BinomialVanillaEngine_2 :=
  {| process_ := rough_process spot; timeSteps_ := n |}.

Definition no_results : Results :=
  {| res_value := None; res_delta := None; res_gamma := None; res_theta := None |}.

(** The gamma of the spec, with [s0] read at the middle node of the tree. *)
Definition spec_gamma (p0d p0 p0u s0d s0 s0u : Q) : Q :=
  let delta_up := (p0u - p0) / (s0u - s0) in
  let delta_down := (p0d - p0) / (s0d - s0) in
  (delta_up - delta_down) / ((s0u - s0d) / 2).

(** A tree with additive steps of 5 around the spot, started two steps
    before time 0: prices rise with the node index at every step. *)
Definition additive_tree (bs : GeneralizedBlackScholesProcess) (m : Q) (n : nat) (k : Q)
  : Tree :=
  {| size := fun i => S (S (S i));
     underlying := fun i j =>
       stateVariable bs + (inject_Z (Z.of_nat j) * 2 - inject_Z (Z.of_nat i) - 2) * 5;
     probability := fun _ _ _ => 1 # 2 |}.

Definition expired_call : Arguments :=
  {| payoff := PlainVanillaPayoff Call 100;
     exercise := {| ex_type := European; ex_dates := [0%Z] |} |}.


(** The shifted tree with probabilities that change after the root. *)
Definition shifted_tree_varying (bs : GeneralizedBlackScholesProcess) (m : Q) (n : nat) (k : Q)
  : Tree :=
  {| size := size (shifted_tree bs m n k);
     underlying := underlying (shifted_tree bs m n k);
     probability := fun i _ b =>
       match i, b with
       | O, _ => 1 # 2
       | S _, O => 1 # 3
       | S _, _ => 2 # 3
       end |}.

Definition american_put : Arguments :=
  {| payoff := PlainVanillaPayoff Put 110;
     exercise := {| ex_type := American; ex_dates := [0%Z; 365%Z] |} |}.

(** Order of a value list along the node index: non-decreasing when [up],
    non-increasing otherwise. *)
Definition ord (up : bool) (x y : Q) : Prop := if up then x <= y else y <= x.

Definition sorted_dir (up : bool) (vs : list Q) : Prop :=
  forall j, (S j < List.length vs)%nat -> ord up (nth j vs 0) (nth (S j) vs 0).

(** The rollback with the exercise condition left out: discounted expectation
    only, from step [k] down to 0. *)
Fixpoint stepback_only (lat : BlackScholesLattice) (k : nat) (values : list Q) : list Q :=
  match k with
  | O => values
  | S i => stepback_only lat i (stepback lat i values)
  end.

(** ** Lemmas *)

(** What one pricing call does, case by case. *)
Lemma calculate_outcome exp T eng args s :
  calculate exp T eng args s =
  if Qle_bool (stateVariable (process_ eng)) 0
  then (inl (PreconditionError "negative or null underlying given"), s)
  else match market_inputs eng args with
  | inl e => (inl e, s)
  | inr (v, r, q) =>
      match payoff args with
      | OtherPayoff _ => (inl (PreconditionError "non-plain payoff given"), s)
      | PlainVanillaPayoff _ k =>
          if Qle_bool (call_maturity eng args) 0
          then (inl (PreconditionError "negative times not allowed"), s)
          else
            match T (flat_process eng args v r q) (call_maturity eng args) (timeSteps_ eng) k with
            | inl e => (inl e, s)
            | inr tree =>
                let va := values_at_0 exp eng args r tree in
                if Nat.eqb (List.length va) 3
                then match call_theta (process_ eng) tree va with
                     | inl e => (inl e, greeks_partial (process_ eng) tree va s)
                     | inr th => (inr tt, greeks_results (process_ eng) tree va th)
                     end
                else (inl (PostconditionError "Expect 3 nodes in grid at 0 step"), s)
            end
      end
  end.
Proof.
  unfold calculate, market_inputs, bind, bindE, liftE, QL_REQUIRE, QL_ENSURE.
  destruct (Qle_bool _ 0); [reflexivity|]. cbn [negb].
  destruct (blackVol _ _ _) as [e|v]; [reflexivity|].
  destruct (zeroRate (riskFreeRate _) _ _) as [e|r]; [reflexivity|].
  destruct (zeroRate (dividendYield _) _ _) as [e|q]; [reflexivity|].
  destruct (payoff args) as [ty k|f]; [|reflexivity].
  unfold mkBlackScholesLattice, mkTimeGrid, bind, QL_REQUIRE, ret.
  fold (call_maturity eng args).
  destruct (Qle_bool (call_maturity eng args) 0); [reflexivity|]. cbn [negb].
  fold (flat_process eng args v r q).
  destruct (T _ _ _ _) as [e|tree]; [reflexivity|].
  fold (call_grid eng args). fold (call_option eng args).
  fold (call_lattice exp eng args r tree). fold (values_at_0 exp eng args r tree).
  destruct (Nat.eqb _ 3); [|reflexivity].
  unfold set_value, set_delta, set_gamma, set_theta, call_theta.
  destruct (blackScholesTheta _ _ _ _); reflexivity.
Qed.

Lemma applySpecificCondition_length o lat i vs :
  List.length (applySpecificCondition o lat i vs) = List.length vs.
Proof. unfold applySpecificCondition. now rewrite length_map, length_seq. Qed.

Lemma adjustValues_length o lat i vs :
  List.length (adjustValues o lat i vs) = List.length vs.
Proof.
  unfold adjustValues.
  destruct (ex_type _).
  - destruct (isOnTime _ _ _); [apply applySpecificCondition_length | reflexivity].
  - destruct (_ && _); [apply applySpecificCondition_length | reflexivity].
  - generalize (stoppingTimes o) as st. intro st. revert vs.
    induction st as [|t st IH]; intro vs; [reflexivity|].
    cbn [fold_left]. rewrite IH.
    destruct (isOnTime _ _ _); [apply applySpecificCondition_length | reflexivity].
Qed.

Lemma stepback_length lat i vs :
  List.length (stepback lat i vs) = size (lat_tree lat) i.
Proof. unfold stepback. now rewrite length_map, length_seq. Qed.

Lemma rollback_steps_length o lat k vs :
  List.length (rollback_steps o lat k vs) =
  match k with O => List.length vs | S _ => size (lat_tree lat) 0 end.
Proof.
  revert vs; induction k as [|k IH]; intro vs; [reflexivity|].
  cbn [rollback_steps]. rewrite IH.
  destruct k; [|reflexivity].
  now rewrite adjustValues_length, stepback_length.
Qed.

(** The rollback leaves as many values as the tree has nodes at step 0,
    whatever the number of steps. *)
Lemma values_at_0_length exp eng args r tree :
  List.length (values_at_0 exp eng args r tree) = size tree 0.
Proof.
  unfold values_at_0, rollback_to_0, initialize.
  rewrite rollback_steps_length.
  cbn [lat_grid call_grid tg_steps lat_tree call_lattice].
  destruct (timeSteps_ eng); [|reflexivity].
  now rewrite adjustValues_length, repeat_length.
Qed.

Lemma Qle_bool_pos (x : Q) : 0 < x -> Qle_bool x 0 = false.
Proof.
  intro H. destruct (Qle_bool x 0) eqn:E; [|reflexivity].
  apply Qle_bool_iff in E. exfalso. now apply (Qlt_not_le 0 x).
Qed.

Lemma Qle_bool_nonpos (x : Q) : x <= 0 -> Qle_bool x 0 = true.
Proof. apply Qle_bool_iff. Qed.

(** A successful call passed every check, got its market data, its tree and
    its theta, and stored [greeks_results]. *)
Lemma calculate_success exp T eng args s s' :
  calculate exp T eng args s = (inr tt, s') ->
  exists ty k v r q tree th,
    payoff args = PlainVanillaPayoff ty k /\
    market_inputs eng args = inr (v, r, q) /\
    T (flat_process eng args v r q) (call_maturity eng args) (timeSteps_ eng) k = inr tree /\
    List.length (values_at_0 exp eng args r tree) = 3%nat /\
    call_theta (process_ eng) tree (values_at_0 exp eng args r tree) = inr th /\
    s' = greeks_results (process_ eng) tree (values_at_0 exp eng args r tree) th.
Proof.
  rewrite calculate_outcome.
  destruct (Qle_bool _ 0); [discriminate|].
  destruct (market_inputs eng args) as [e|[[v r] q]]; [discriminate|].
  destruct (payoff args) as [ty k|f]; [|discriminate].
  destruct (Qle_bool (call_maturity eng args) 0); [discriminate|].
  destruct (T _ _ _ _) as [e|tree] eqn:Et; [discriminate|].
  cbv zeta.
  destruct (Nat.eqb _ 3) eqn:E; [|discriminate].
  destruct (call_theta _ _ _) as [e|th] eqn:Eth; [discriminate|].
  intro H; injection H as <-.
  exists ty, k, v, r, q, tree, th. repeat split; try assumption. now apply Nat.eqb_eq.
Qed.

(** ** Claims *)

(** C1 (amended).  The engine adds no early step of its own: the grid is
    [TimeGrid(maturity, N)] and the tree is built with [N] steps, so the
    rollback to time 0 leaves exactly as many values as the tree has nodes
    at step 0, whatever [N].  For a plain payoff, a positive spot, market
    data the curves can give, a positive maturity and a tree the constructor
    builds, the three-node check fails (results untouched) when that count
    is not 3; when it is 3 the check passes and the value is stored, and the
    call succeeds if the theta helper can read its market data. *)
Theorem C1_three_nodes_iff_tree exp T eng args s ty k v r q tree
  (Hpay : payoff args = PlainVanillaPayoff ty k)
  (Hspot : 0 < stateVariable (process_ eng))
  (Hmkt : market_inputs eng args = inr (v, r, q))
  (Hmat : 0 < call_maturity eng args)
  (Htree : T (flat_process eng args v r q) (call_maturity eng args) (timeSteps_ eng) k = inr tree) :
  List.length (values_at_0 exp eng args r tree) = size tree 0 /\
  (size tree 0 <> 3%nat ->
   calculate exp T eng args s =
   (inl (PostconditionError "Expect 3 nodes in grid at 0 step"), s)) /\
  (size tree 0 = 3%nat ->
   res_value (snd (calculate exp T eng args s)) = Some (nth 1 (values_at_0 exp eng args r tree) 0) /\
   ((forall x y z, exists th, blackScholesTheta (process_ eng) x y z = inr th) ->
    fst (calculate exp T eng args s) = inr tt)).
Proof.
  split; [apply values_at_0_length|].
  rewrite calculate_outcome, (Qle_bool_pos _ Hspot), Hmkt, Hpay, (Qle_bool_pos _ Hmat), Htree.
  cbv zeta. rewrite values_at_0_length. split.
  - intro Hn. destruct (Nat.eqb_spec (size tree 0) 3) as [E|E]; [contradiction | reflexivity].
  - intro Hn. rewrite Hn. cbn [Nat.eqb]. unfold call_theta. split.
    + destruct (blackScholesTheta _ _ _ _); reflexivity.
    + intro Hth.
      destruct (Hth (nth 1 (values_at_0 exp eng args r tree) 0)
                    (node_delta tree (values_at_0 exp eng args r tree))
                    (node_gamma (stateVariable (process_ eng)) tree
                                (values_at_0 exp eng args r tree))) as [th ->].
      reflexivity.
Qed.

Lemma C1_witness :
  let e := sample_engine 100 2 in
  let tree := shifted_tree (flat_process e european_call (1 # 5) (1 # 20) 0)
                           (call_maturity e european_call) 2 100 in
  List.length (values_at_0 exp_first_order e european_call (1 # 20) tree) = size tree 0 /\
  (size tree 0 <> 3%nat ->
   calculate exp_first_order (total_builder shifted_tree) e european_call no_results =
   (inl (PostconditionError "Expect 3 nodes in grid at 0 step"), no_results)) /\
  (size tree 0 = 3%nat ->
   res_value (snd (calculate exp_first_order (total_builder shifted_tree) e european_call
                     no_results))
   = Some (nth 1 (values_at_0 exp_first_order e european_call (1 # 20) tree) 0) /\
   ((forall x y z, exists th, blackScholesTheta (process_ e) x y z = inr th) ->
    fst (calculate exp_first_order (total_builder shifted_tree) e european_call no_results)
    = inr tt)).
Proof.
  apply (C1_three_nodes_iff_tree exp_first_order (total_builder shifted_tree)
           (sample_engine 100 2) european_call no_results Call 100 (1 # 5) (1 # 20) 0).
  - reflexivity.
  - reflexivity.
  - vm_compute. reflexivity.
  - reflexivity.
  - reflexivity.
Defined.

(** C1 fails: an engine accepted with N = 2 over a tree with one node at the
    root raises the internal-consistency failure. *)
Lemma C1_standard_tree_fails_at_N2 :
  match mkBinomialVanillaEngine_2 (sample_process 100) 2 with
  | inr e => fst (calculate exp_first_order (total_builder standard_tree) e european_call
                   no_results)
             = inl (PostconditionError "Expect 3 nodes in grid at 0 step")
  | inl _ => False
  end.
Proof. vm_compute. reflexivity. Qed.

(** C2 (amended).  A successful call with plain payoff of strike [k]
    reports gamma = (delta_up - delta_down) / ((s0u - s0d) / 2) with
    delta_up = (p0u - p0) / (s0u - s0), delta_down = (p0d - p0) / (s0d - s0),
    where p0d, p0, p0u are the time-0 node values of the call's own tree
    (built from its market data, with strike [k]), s0d, s0u that tree's
    underlying prices at the outer time-0 nodes and s0 the spot price of the
    process (not read from the tree's middle node). *)
Theorem C2_gamma_uses_spot exp T eng args s s' ty k
  (Hpay : payoff args = PlainVanillaPayoff ty k)
  (H : calculate exp T eng args s = (inr tt, s')) :
  exists v r q tree,
    market_inputs eng args = inr (v, r, q) /\
    T (flat_process eng args v r q) (call_maturity eng args) (timeSteps_ eng) k = inr tree /\
    let va := values_at_0 exp eng args r tree in
    List.length va = 3%nat /\
    res_gamma s' = Some (spec_gamma (nth 0 va 0) (nth 1 va 0) (nth 2 va 0)
                                    (underlying tree 0 0) (stateVariable (process_ eng))
                                    (underlying tree 0 2)).
Proof.
  destruct (calculate_success _ _ _ _ _ _ H)
    as (ty' & k' & v & r & q & tree & th & Hpay' & Hm & Ht & Hlen & _ & ->).
  rewrite Hpay in Hpay'. injection Hpay' as <- <-.
  exists v, r, q, tree. repeat split; assumption.
Qed.

Lemma C2_witness :
  exists v r q tree,
    market_inputs (sample_engine 100 2) european_call = inr (v, r, q) /\
    total_builder shifted_tree (flat_process (sample_engine 100 2) european_call v r q)
      (call_maturity (sample_engine 100 2) european_call) 2 100 = inr tree /\
    let va := values_at_0 exp_first_order (sample_engine 100 2) european_call r tree in
    List.length va = 3%nat /\
    res_gamma (snd (calculate exp_first_order (total_builder shifted_tree) (sample_engine 100 2)
                      european_call no_results))
    = Some (spec_gamma (nth 0 va 0) (nth 1 va 0) (nth 2 va 0)
                       (underlying tree 0 0) 100 (underlying tree 0 2)).
Proof.
  apply (C2_gamma_uses_spot exp_first_order (total_builder shifted_tree) (sample_engine 100 2)
           european_call no_results _ Call 100 eq_refl).
  vm_compute. reflexivity.
Defined.

(** C2 fails: with a tree whose middle node at time 0 is not the spot, the
    reported gamma differs from the formula with s0 read at that node. *)
Lemma C2_mid_node_counterexample :
  let e := sample_engine 100 2 in
  let tree := drifted_tree (flat_process e european_call (1 # 5) (1 # 20) 0)
                           (call_maturity e european_call) 2 100 in
  let va := values_at_0 exp_first_order e european_call (1 # 20) tree in
  market_inputs e european_call = inr ((1 # 5), (1 # 20), 0) /\
  underlying tree 0 1 == 105 /\
  match calculate exp_first_order (total_builder drifted_tree) e european_call no_results with
  | (inr _, s') =>
      exists g, res_gamma s' = Some g /\
        ~ g == spec_gamma (nth 0 va 0) (nth 1 va 0) (nth 2 va 0)
                          (underlying tree 0 0) (underlying tree 0 1) (underlying tree 0 2)
  | (inl _, _) => False
  end.
Proof.
  split; [vm_compute; reflexivity|].
  split; [reflexivity|].
  vm_compute. eexists. split; [reflexivity|].
  intro Hq. vm_compute in Hq. discriminate.
Qed.

(** C3.  A successful call with plain payoff of strike [k] reports
    delta = (p0u - p0d) / (s0u - s0d): the values at the top and bottom
    nodes at time 0 (indices 2 and 0 of the three-element value vector) of
    the call's own tree (built from its market data, with strike [k]) over
    that tree's underlying prices at those two outer nodes. *)
Theorem C3_delta_outer_nodes exp T eng args s s' ty k
  (Hpay : payoff args = PlainVanillaPayoff ty k)
  (H : calculate exp T eng args s = (inr tt, s')) :
  exists v r q tree,
    market_inputs eng args = inr (v, r, q) /\
    T (flat_process eng args v r q) (call_maturity eng args) (timeSteps_ eng) k = inr tree /\
    let va := values_at_0 exp eng args r tree in
    List.length va = 3%nat /\
    res_delta s' = Some ((nth 2 va 0 - nth 0 va 0) / (underlying tree 0 2 - underlying tree 0 0)).
Proof.
  destruct (calculate_success _ _ _ _ _ _ H)
    as (ty' & k' & v & r & q & tree & th & Hpay' & Hm & Ht & Hlen & _ & ->).
  rewrite Hpay in Hpay'. injection Hpay' as <- <-.
  exists v, r, q, tree. repeat split; assumption.
Qed.

Lemma C3_witness :
  exists v r q tree,
    market_inputs (sample_engine 100 2) european_call = inr (v, r, q) /\
    total_builder shifted_tree (flat_process (sample_engine 100 2) european_call v r q)
      (call_maturity (sample_engine 100 2) european_call) 2 100 = inr tree /\
    let va := values_at_0 exp_first_order (sample_engine 100 2) european_call r tree in
    List.length va = 3%nat /\
    res_delta (snd (calculate exp_first_order (total_builder shifted_tree) (sample_engine 100 2)
                      european_call no_results))
    = Some ((nth 2 va 0 - nth 0 va 0) / (underlying tree 0 2 - underlying tree 0 0)).
Proof.
  apply (C3_delta_outer_nodes exp_first_order (total_builder shifted_tree) (sample_engine 100 2)
           european_call no_results _ Call 100 eq_refl).
  vm_compute. reflexivity.
Defined.

(** C4.  A successful call with plain payoff of strike [k] reports as value
    the middle one (index 1) of the three values at time 0 of the call's own
    tree (built from its market data, with strike [k]). *)
Theorem C4_value_mid_node exp T eng args s s' ty k
  (Hpay : payoff args = PlainVanillaPayoff ty k)
  (H : calculate exp T eng args s = (inr tt, s')) :
  exists v r q tree,
    market_inputs eng args = inr (v, r, q) /\
    T (flat_process eng args v r q) (call_maturity eng args) (timeSteps_ eng) k = inr tree /\
    let va := values_at_0 exp eng args r tree in
    List.length va = 3%nat /\ res_value s' = Some (nth 1 va 0).
Proof.
  destruct (calculate_success _ _ _ _ _ _ H)
    as (ty' & k' & v & r & q & tree & th & Hpay' & Hm & Ht & Hlen & _ & ->).
  rewrite Hpay in Hpay'. injection Hpay' as <- <-.
  exists v, r, q, tree. repeat split; assumption.
Qed.

Lemma C4_witness :
  exists v r q tree,
    market_inputs (sample_engine 100 2) european_call = inr (v, r, q) /\
    total_builder shifted_tree (flat_process (sample_engine 100 2) european_call v r q)
      (call_maturity (sample_engine 100 2) european_call) 2 100 = inr tree /\
    let va := values_at_0 exp_first_order (sample_engine 100 2) european_call r tree in
    List.length va = 3%nat /\
    res_value (snd (calculate exp_first_order (total_builder shifted_tree) (sample_engine 100 2)
                      european_call no_results)) = Some (nth 1 va 0).
Proof.
  apply (C4_value_mid_node exp_first_order (total_builder shifted_tree) (sample_engine 100 2)
           european_call no_results _ Call 100 eq_refl).
  vm_compute. reflexivity.
Defined.

(** C5.  A successful call reports theta = r*value - (r-q)*u*delta
    - 1/2*sigma^2*u^2*gamma, from the value, delta and gamma it stored and
    the spot u, rate r, dividend yield q and local volatility sigma of the
    process at time 0: no term of the tree enters beyond value, delta and
    gamma. *)
Theorem C5_theta_closed_form exp T eng args s s'
  (H : calculate exp T eng args s = (inr tt, s')) :
  exists v d g r q sigma,
    res_value s' = Some v /\ res_delta s' = Some d /\ res_gamma s' = Some g /\
    let p := process_ eng in
    let u := stateVariable p in
    zeroRateTime (riskFreeRate p) 0 = inr r /\
    zeroRateTime (dividendYield p) 0 = inr q /\
    localVol p 0 u = inr sigma /\
    res_theta s' = Some (r * v - (r - q) * u * d - (1 # 2) * sigma * sigma * u * u * g).
Proof.
  destruct (calculate_success _ _ _ _ _ _ H)
    as (ty & k & v & r & q & tree & th & _ & _ & _ & _ & Eth & ->).
  unfold call_theta, blackScholesTheta, bindE in Eth.
  destruct (zeroRateTime (riskFreeRate _) 0) as [e|r0] eqn:Er; [discriminate|].
  destruct (zeroRateTime (dividendYield _) 0) as [e|q0] eqn:Eq; [discriminate|].
  destruct (localVol _ 0 _) as [e|sg] eqn:Es; [discriminate|].
  injection Eth as <-.
  do 6 eexists. repeat split; eassumption.
Qed.

Lemma C5_witness :
  exists v d g r q sigma,
    let s' := snd (calculate exp_first_order (total_builder shifted_tree) (sample_engine 100 2)
                     european_call no_results) in
    res_value s' = Some v /\ res_delta s' = Some d /\ res_gamma s' = Some g /\
    let p := process_ (sample_engine 100 2) in
    let u := stateVariable p in
    zeroRateTime (riskFreeRate p) 0 = inr r /\
    zeroRateTime (dividendYield p) 0 = inr q /\
    localVol p 0 u = inr sigma /\
    res_theta s' = Some (r * v - (r - q) * u * d - (1 # 2) * sigma * sigma * u * u * g).
Proof.
  apply (C5_theta_closed_form exp_first_order (total_builder shifted_tree) (sample_engine 100 2)
           european_call no_results).
  vm_compute. reflexivity.
Defined.

(** C6.  The constructor rejects every step count below 2 with the
    precondition error "at least 2 time steps required", so no engine and
    no lattice exist for it; every step count of at least 2 is accepted. *)
Theorem C6_time_steps_check p N :
  (mkBinomialVanillaEngine_2 p N = inl (PreconditionError "at least 2 time steps required")
   <-> (N < 2)%nat) /\
  ((2 <= N)%nat ->
   exists e, mkBinomialVanillaEngine_2 p N = inr e /\ timeSteps_ e = N /\ process_ e = p).
Proof.
  unfold mkBinomialVanillaEngine_2.
  destruct (Nat.leb_spec 2 N) as [L|L].
  - split.
    + split; [discriminate | lia].
    + intros _. eexists. repeat split.
  - split.
    + split; [intros _; exact L | reflexivity].
    + lia.
Qed.

Lemma C6_witness :
  exists e, mkBinomialVanillaEngine_2 (sample_process 100) 2 = inr e /\
            timeSteps_ e = 2%nat /\ process_ e = sample_process 100.
Proof. apply (proj2 (C6_time_steps_check (sample_process 100) 2)). lia. Defined.

(** C7.  A call whose spot is not positive fails with the precondition error
    "negative or null underlying given", leaves the results untouched and
    does not depend on the tree type (no tree is built). *)
Theorem C7_nonpositive_spot exp T eng args s
  (H : stateVariable (process_ eng) <= 0) :
  calculate exp T eng args s =
  (inl (PreconditionError "negative or null underlying given"), s).
Proof. now rewrite calculate_outcome, (Qle_bool_nonpos _ H). Qed.

Lemma C7_witness :
  calculate exp_first_order (total_builder shifted_tree) (sample_engine 0 2) european_call
    no_results =
  (inl (PreconditionError "negative or null underlying given"), no_results).
Proof. apply C7_nonpositive_spot. vm_compute. discriminate. Defined.

(** C8 (amended).  A call whose payoff is not plain vanilla fails with a
    precondition error, leaves the results untouched and builds no tree (the
    outcome does not depend on the tree type).  The checks before the payoff
    one come first: a non-positive spot fails with "negative or null
    underlying given", then a failing market-data lookup (volatility, rate
    or dividend yield at the last exercise date) with its own error; only
    when both pass is the error "non-plain payoff given". *)
Theorem C8_non_plain_payoff exp T eng args s f
  (H : payoff args = OtherPayoff f) :
  calculate exp T eng args s =
  (inl (if Qle_bool (stateVariable (process_ eng)) 0
        then PreconditionError "negative or null underlying given"
        else match market_inputs eng args with
             | inl e => e
             | inr _ => PreconditionError "non-plain payoff given"
             end), s).
Proof.
  rewrite calculate_outcome.
  destruct (Qle_bool _ 0); [reflexivity|].
  destruct (market_inputs eng args) as [e|[[v r] q]]; [reflexivity|].
  now rewrite H.
Qed.

Lemma C8_witness :
  calculate exp_first_order (total_builder shifted_tree) (sample_engine 100 2) european_other
    no_results =
  (inl (PreconditionError "non-plain payoff given"), no_results).
Proof.
  apply (C8_non_plain_payoff exp_first_order (total_builder shifted_tree) (sample_engine 100 2)
           european_other no_results (fun x => if Qle_bool 100 x then 1 else 0)).
  reflexivity.
Defined.

(** C8 fails as worded: a non-plain payoff with a zero spot is rejected with
    the spot message, not "non-plain payoff given". *)
Lemma C8_zero_spot_message :
  calculate exp_first_order (total_builder shifted_tree) (sample_engine 0 2) european_other
    no_results =
  (inl (PreconditionError "negative or null underlying given"), no_results).
Proof. vm_compute. reflexivity. Qed.

(** C9 (amended).  A call that fails leaves [results_] as it found it,
    except when the failure is the theta helper's, after the three-node
    check: value, delta and gamma are then already stored (theta is not).
    When the theta helper cannot fail, a failed call writes nothing. *)
Theorem C9_failure_keeps_results exp T eng args s e s'
  (H : calculate exp T eng args s = (inl e, s')) :
  (s' = s \/
   exists tree va, s' = greeks_partial (process_ eng) tree va s /\
                   call_theta (process_ eng) tree va = inl e) /\
  ((forall x y z, exists th, blackScholesTheta (process_ eng) x y z = inr th) -> s' = s).
Proof.
  rewrite calculate_outcome in H.
  assert (Hkeep : s' = s ->
    (s' = s \/ exists tree va, s' = greeks_partial (process_ eng) tree va s /\
                               call_theta (process_ eng) tree va = inl e) /\
    ((forall x y z, exists th, blackScholesTheta (process_ eng) x y z = inr th) -> s' = s))
    by (intros ->; split; [left|intros _]; reflexivity).
  destruct (Qle_bool _ 0); [injection H as _ <-; now apply Hkeep|].
  destruct (market_inputs eng args) as [e'|[[v r] q]]; [injection H as _ <-; now apply Hkeep|].
  destruct (payoff args) as [ty k|f]; [|injection H as _ <-; now apply Hkeep].
  destruct (Qle_bool (call_maturity eng args) 0); [injection H as _ <-; now apply Hkeep|].
  destruct (T _ _ _ _) as [e'|tree]; [injection H as _ <-; now apply Hkeep|].
  cbv zeta in H.
  destruct (Nat.eqb _ 3); [|injection H as _ <-; now apply Hkeep].
  destruct (call_theta _ _ _) as [e'|th] eqn:Eth; [|discriminate].
  injection H as -> <-. split.
  - right. eexists _, _. split; [reflexivity | exact Eth].
  - intro Hth. unfold call_theta in Eth.
    destruct (Hth (nth 1 (values_at_0 exp eng args r tree) 0)
                  (node_delta tree (values_at_0 exp eng args r tree))
                  (node_gamma (stateVariable (process_ eng)) tree
                              (values_at_0 exp eng args r tree))) as [th Eth'].
    rewrite Eth' in Eth. discriminate.
Qed.

Lemma C9_witness :
  let e := rough_engine 100 2 in
  let s' := snd (calculate exp_first_order (total_builder shifted_tree) e european_call
                           no_results) in
  (s' = no_results \/
   exists tree va, s' = greeks_partial (process_ e) tree va no_results /\
                   call_theta (process_ e) tree va
                   = inl (PostconditionError "negative local vol^2")) /\
  ((forall x y z, exists th, blackScholesTheta (process_ e) x y z = inr th) -> s' = no_results).
Proof.
  apply (C9_failure_keeps_results exp_first_order (total_builder shifted_tree)
           (rough_engine 100 2) european_call no_results
           (PostconditionError "negative local vol^2")).
  vm_compute. reflexivity.
Defined.

(** C9 fails: when the local volatility of the process cannot be computed,
    the call fails in the theta helper with value, delta and gamma already
    written. *)
Lemma C9_theta_failure_writes_partial :
  let out := calculate exp_first_order (total_builder shifted_tree) (rough_engine 100 2)
                       european_call no_results in
  fst out = inl (PostconditionError "negative local vol^2") /\
  res_value (snd out) <> None /\ res_delta (snd out) <> None /\
  res_gamma (snd out) <> None /\ res_theta (snd out) = None.
Proof.
  vm_compute. split; [reflexivity|].
  repeat split; try reflexivity; discriminate.
Qed.

Lemma market_inputs_lookups eng args v r q :
  market_inputs eng args = inr (v, r, q) ->
  let p := process_ eng in
  let d := lastDate (exercise args) in
  blackVol (blackVolatility p) d (stateVariable p) = inr v /\
  zeroRate (riskFreeRate p) d (yts_dayCounter (riskFreeRate p)) = inr r /\
  zeroRate (dividendYield p) d (yts_dayCounter (dividendYield p)) = inr q.
Proof.
  unfold market_inputs, bindE.
  destruct (blackVol _ _ _); [discriminate|].
  destruct (zeroRate (riskFreeRate _) _ _); [discriminate|].
  destruct (zeroRate (dividendYield _) _ _); [discriminate|].
  intro E. injection E as -> -> ->. repeat split.
Qed.

(** C10.  The tree builder only ever sees a process whose volatility is the
    constant [blackVol(lastDate, s0)] of the input surface, at the exercise's
    last date and the spot: two builders that agree on every process whose
    volatility is constantly that value give the same pricing call. *)
Theorem C10_tree_sees_flat_vol exp T1 T2 eng args s
  (Hagree : forall v,
      blackVol (blackVolatility (process_ eng)) (lastDate (exercise args))
               (stateVariable (process_ eng)) = inr v ->
      forall p m n k,
      (forall t x, blackVolImpl (blackVolatility p) t x = inr v) ->
      T1 p m n k = T2 p m n k) :
  calculate exp T1 eng args s = calculate exp T2 eng args s.
Proof.
  rewrite !calculate_outcome.
  destruct (Qle_bool _ 0); [reflexivity|].
  destruct (market_inputs eng args) as [e|[[v r] q]] eqn:Em; [reflexivity|].
  destruct (payoff args) as [ty k|f]; [|reflexivity].
  destruct (Qle_bool (call_maturity eng args) 0); [reflexivity|].
  destruct (market_inputs_lookups _ _ _ _ _ Em) as (Hv & _ & _).
  rewrite (Hagree v Hv); [reflexivity|].
  intros t x. reflexivity.
Qed.

Lemma C10_witness :
  calculate exp_first_order vol_tree_at_spot (sample_engine 100 2) european_call no_results =
  calculate exp_first_order vol_tree_at_strike (sample_engine 100 2) european_call no_results.
Proof.
  apply (C10_tree_sees_flat_vol exp_first_order vol_tree_at_spot vol_tree_at_strike).
  intros v Hv p m n k Himpl. unfold vol_tree_at_spot, vol_tree_at_strike.
  now rewrite !Himpl.
Defined.

(** ** Further properties of the pricing call *)


Lemma nth_map_seq {A} (f : nat -> A) n j d :
  (j < n)%nat -> nth j (map f (seq 0 n)) d = f j.
Proof.
  intro Hj. rewrite nth_indep with (d' := f 0%nat).
  - now rewrite map_nth, seq_nth.
  - now rewrite length_map, length_seq.
Qed.

Lemma nth_nonneg vs j : Forall (Qle 0) vs -> 0 <= nth j vs 0.
Proof.
  intro H. destruct (Nat.lt_ge_cases j (List.length vs)) as [L|L].
  - exact (proj1 (Forall_nth _ _) H j 0 L).
  - rewrite nth_overflow by exact L. apply Qle_refl.
Qed.

Lemma Forall_map_seq (P : Q -> Prop) (f : nat -> Q) n :
  (forall j, (j < n)%nat -> P (f j)) -> Forall P (map f (seq 0 n)).
Proof.
  intro H. apply Forall_map, Forall_forall. intros j Hj.
  apply in_seq in Hj. apply H. lia.
Qed.

Lemma qmax_cases a b : qmax a b = a /\ b <= a \/ qmax a b = b /\ a < b.
Proof.
  unfold qmax. destruct (Qle_bool b a) eqn:E.
  - left. split; [reflexivity | now apply Qle_bool_iff].
  - right. split; [reflexivity|]. apply Qnot_le_lt. rewrite <- Qle_bool_iff. congruence.
Qed.

Lemma qmax_ge_l a b : a <= qmax a b.
Proof. destruct (qmax_cases a b) as [[-> _]|[-> H]]; lra. Qed.

Lemma qmax_ge_r a b : b <= qmax a b.
Proof. destruct (qmax_cases a b) as [[-> H]|[-> _]]; lra. Qed.

Lemma qmax_mono a b c d : a <= c -> b <= d -> qmax a b <= qmax c d.
Proof.
  intros H1 H2. pose proof (qmax_ge_l c d). pose proof (qmax_ge_r c d).
  destruct (qmax_cases a b) as [[-> _]|[-> _]]; lra.
Qed.

Lemma stepback_nonneg lat i vs :
  0 <= lat_pd lat -> 0 <= lat_pu lat -> 0 <= lat_discount lat ->
  Forall (Qle 0) vs -> Forall (Qle 0) (stepback lat i vs).
Proof.
  intros Hd Hu Hc H. apply Forall_map_seq. intros j _.
  apply Qmult_le_0_compat; [|exact Hc].
  pose proof (Qmult_le_0_compat _ _ Hd (nth_nonneg vs j H)).
  pose proof (Qmult_le_0_compat _ _ Hu (nth_nonneg vs (S j) H)). lra.
Qed.

Lemma applySpecificCondition_nonneg o lat i vs :
  Forall (Qle 0) vs -> Forall (Qle 0) (applySpecificCondition o lat i vs).
Proof.
  intro H. apply Forall_map_seq. intros j _.
  pose proof (nth_nonneg vs j H). pose proof (qmax_ge_l (nth j vs 0)
    (payoff_value (payoff (dvo_arguments o)) (nth j (lattice_grid lat i) 0))). lra.
Qed.

Lemma adjustValues_nonneg o lat i vs :
  Forall (Qle 0) vs -> Forall (Qle 0) (adjustValues o lat i vs).
Proof.
  intro H. unfold adjustValues. destruct (ex_type _).
  - destruct (isOnTime _ _ _); [now apply applySpecificCondition_nonneg | exact H].
  - destruct (_ && _); [now apply applySpecificCondition_nonneg | exact H].
  - generalize (stoppingTimes o) as st. intro st. revert vs H.
    induction st as [|t st IH]; intros vs H; [exact H|].
    cbn [fold_left]. apply IH.
    destruct (isOnTime _ _ _); [now apply applySpecificCondition_nonneg | exact H].
Qed.

Lemma rollback_steps_nonneg o lat k vs :
  0 <= lat_pd lat -> 0 <= lat_pu lat -> 0 <= lat_discount lat ->
  Forall (Qle 0) vs -> Forall (Qle 0) (rollback_steps o lat k vs).
Proof.
  intros Hd Hu Hc. revert vs. induction k as [|k IH]; intros vs H; [exact H|].
  cbn [rollback_steps]. apply IH, adjustValues_nonneg, stepback_nonneg; assumption.
Qed.

Lemma values_at_0_nonneg exp eng args r tree :
  0 <= probability tree 0 0 0 -> 0 <= probability tree 0 0 1 ->
  0 <= exp (- r * tg_dt (call_grid eng args)) ->
  Forall (Qle 0) (values_at_0 exp eng args r tree).
Proof.
  intros Hd Hu Hc. unfold values_at_0, rollback_to_0, initialize.
  apply rollback_steps_nonneg; try assumption.
  apply adjustValues_nonneg, Forall_forall.
  intros x Hx. apply repeat_spec in Hx. subst x. apply Qle_refl.
Qed.

(** A successful call over a tree whose root probabilities are non-negative,
    with a non-negative one-step discount, stores a non-negative value: the
    values start at zero, early exercise only raises them and stepping back
    takes non-negative combinations. *)
Theorem value_nonneg exp T eng args s s' ty k
  (Hpay : payoff args = PlainVanillaPayoff ty k)
  (Htree : forall v r q tree,
     market_inputs eng args = inr (v, r, q) ->
     T (flat_process eng args v r q) (call_maturity eng args) (timeSteps_ eng) k = inr tree ->
     0 <= probability tree 0 0 0 /\ 0 <= probability tree 0 0 1 /\
     0 <= exp (- r * tg_dt (call_grid eng args)))
  (H : calculate exp T eng args s = (inr tt, s')) :
  exists v, res_value s' = Some v /\ 0 <= v.
Proof.
  destruct (calculate_success _ _ _ _ _ _ H)
    as (ty' & k' & v & r & q & tree & th & Hpay' & Hm & Ht & _ & _ & ->).
  rewrite Hpay in Hpay'. injection Hpay' as <- <-.
  destruct (Htree v r q tree Hm Ht) as (Hd & Hu & Hc).
  eexists. split; [reflexivity|].
  apply nth_nonneg, values_at_0_nonneg; assumption.
Qed.

Lemma value_nonneg_witness :
  exists v, res_value (snd (calculate exp_first_order (total_builder shifted_tree)
                              (sample_engine 100 2) european_call no_results)) = Some v /\ 0 <= v.
Proof.
  apply (value_nonneg exp_first_order (total_builder shifted_tree) (sample_engine 100 2)
           european_call no_results _ Call 100 eq_refl).
  - intros v r q tree Hm Ht. vm_compute in Hm. injection Hm as <- <- <-.
    injection Ht as <-. vm_compute. repeat split; discriminate.
  - vm_compute. reflexivity.
Defined.

Lemma Qmult_le_l_nonneg z x y : x <= y -> 0 <= z -> z * x <= z * y.
Proof. intros. rewrite !(Qmult_comm z). now apply Qmult_le_compat_r. Qed.

Lemma stepback_combination_mono pd pu c a b a' b' :
  0 <= pd -> 0 <= pu -> 0 <= c -> a <= a' -> b <= b' ->
  (pd * a + pu * b) * c <= (pd * a' + pu * b') * c.
Proof.
  intros Hd Hu Hc Ha Hb. apply Qmult_le_compat_r; [|exact Hc].
  pose proof (Qmult_le_l_nonneg pd a a' Ha Hd).
  pose proof (Qmult_le_l_nonneg pu b b' Hb Hu). lra.
Qed.

Lemma stepback_sorted up lat i vs :
  0 <= lat_pd lat -> 0 <= lat_pu lat -> 0 <= lat_discount lat ->
  List.length vs = S (size (lat_tree lat) i) ->
  sorted_dir up vs -> sorted_dir up (stepback lat i vs).
Proof.
  intros Hd Hu Hc Hl Hs j Hj. rewrite stepback_length in Hj. unfold stepback.
  rewrite !nth_map_seq by lia.
  pose proof (Hs j ltac:(lia)) as H1. pose proof (Hs (S j) ltac:(lia)) as H2.
  unfold ord in *. destruct up; apply stepback_combination_mono; assumption.
Qed.

Lemma applySpecificCondition_sorted up o lat i vs :
  (List.length vs <= size (lat_tree lat) i)%nat ->
  (forall j, (S j < size (lat_tree lat) i)%nat ->
     ord up (payoff_value (payoff (dvo_arguments o)) (underlying (lat_tree lat) i j))
            (payoff_value (payoff (dvo_arguments o)) (underlying (lat_tree lat) i (S j)))) ->
  sorted_dir up vs -> sorted_dir up (applySpecificCondition o lat i vs).
Proof.
  intros Hl Hp Hs j Hj. rewrite applySpecificCondition_length in Hj.
  unfold applySpecificCondition, lattice_grid.
  rewrite !nth_map_seq by lia.
  pose proof (Hs j Hj) as H1. pose proof (Hp j ltac:(lia)) as H2.
  unfold ord in *. destruct up; apply qmax_mono; assumption.
Qed.

Lemma adjustValues_sorted up o lat i vs :
  (List.length vs <= size (lat_tree lat) i)%nat ->
  (forall j, (S j < size (lat_tree lat) i)%nat ->
     ord up (payoff_value (payoff (dvo_arguments o)) (underlying (lat_tree lat) i j))
            (payoff_value (payoff (dvo_arguments o)) (underlying (lat_tree lat) i (S j)))) ->
  sorted_dir up vs -> sorted_dir up (adjustValues o lat i vs).
Proof.
  intros Hl Hp Hs. unfold adjustValues. destruct (ex_type _).
  - destruct (isOnTime _ _ _); [now apply applySpecificCondition_sorted | exact Hs].
  - destruct (_ && _); [now apply applySpecificCondition_sorted | exact Hs].
  - generalize (stoppingTimes o) as st. intro st. revert vs Hl Hs.
    induction st as [|t st IH]; intros vs Hl Hs; [exact Hs|].
    cbn [fold_left].
    destruct (isOnTime _ _ _); apply IH; try assumption.
    + now rewrite applySpecificCondition_length.
    + now apply applySpecificCondition_sorted.
Qed.

Lemma rollback_steps_sorted up o lat k vs :
  0 <= lat_pd lat -> 0 <= lat_pu lat -> 0 <= lat_discount lat ->
  (forall i, size (lat_tree lat) (S i) = S (size (lat_tree lat) i)) ->
  (forall i j, (S j < size (lat_tree lat) i)%nat ->
     ord up (payoff_value (payoff (dvo_arguments o)) (underlying (lat_tree lat) i j))
            (payoff_value (payoff (dvo_arguments o)) (underlying (lat_tree lat) i (S j)))) ->
  List.length vs = size (lat_tree lat) k ->
  sorted_dir up vs -> sorted_dir up (rollback_steps o lat k vs).
Proof.
  intros Hd Hu Hc Hsz Hp. revert vs. induction k as [|k IH]; intros vs Hl Hs; [exact Hs|].
  cbn [rollback_steps]. apply IH.
  - now rewrite adjustValues_length, stepback_length.
  - apply adjustValues_sorted.
    + rewrite stepback_length. lia.
    + apply Hp.
    + apply stepback_sorted; try assumption. now rewrite Hl, Hsz.
Qed.

Lemma values_at_0_sorted up exp eng args r tree :
  0 <= probability tree 0 0 0 -> 0 <= probability tree 0 0 1 ->
  0 <= exp (- r * tg_dt (call_grid eng args)) ->
  (forall i, size tree (S i) = S (size tree i)) ->
  (forall i j, (S j < size tree i)%nat ->
     ord up (payoff_value (payoff args) (underlying tree i j))
            (payoff_value (payoff args) (underlying tree i (S j)))) ->
  sorted_dir up (values_at_0 exp eng args r tree).
Proof.
  intros Hd Hu Hc Hsz Hp. unfold values_at_0, rollback_to_0, initialize.
  apply rollback_steps_sorted; try assumption.
  - now rewrite adjustValues_length, repeat_length.
  - apply adjustValues_sorted.
    + rewrite repeat_length. apply le_n.
    + apply Hp.
    + intros j _. rewrite !nth_repeat. unfold ord. destruct up; apply Qle_refl.
Qed.

Lemma call_payoff_mono k x y :
  x <= y -> payoff_value (PlainVanillaPayoff Call k) x <= payoff_value (PlainVanillaPayoff Call k) y.
Proof. intro H. apply qmax_mono; lra. Qed.

Lemma put_payoff_anti k x y :
  x <= y -> payoff_value (PlainVanillaPayoff Put k) y <= payoff_value (PlainVanillaPayoff Put k) x.
Proof. intro H. apply qmax_mono; lra. Qed.

(** Over a tree whose prices rise with the node index at every step, whose
    node count grows by one per step, with non-negative root probabilities
    and discount and distinct outer prices at time 0, a successful call
    reports a non-negative delta for a call and a non-positive delta for a
    put. *)
Theorem delta_sign exp T eng args s s' ty k
  (Hpay : payoff args = PlainVanillaPayoff ty k)
  (Htree : forall v r q tree,
     market_inputs eng args = inr (v, r, q) ->
     T (flat_process eng args v r q) (call_maturity eng args) (timeSteps_ eng) k = inr tree ->
     0 <= probability tree 0 0 0 /\ 0 <= probability tree 0 0 1 /\
     0 <= exp (- r * tg_dt (call_grid eng args)) /\
     (forall i, size tree (S i) = S (size tree i)) /\
     (forall i j, underlying tree i j <= underlying tree i (S j)) /\
     underlying tree 0 0 < underlying tree 0 2)
  (H : calculate exp T eng args s = (inr tt, s')) :
  exists d, res_delta s' = Some d /\
            match ty with Call => 0 <= d | Put => d <= 0 end.
Proof.
  destruct (calculate_success _ _ _ _ _ _ H)
    as (ty' & k' & v & r & q & tree & th & Hpay' & Hm & Ht & Hlen & _ & ->).
  rewrite Hpay in Hpay'. injection Hpay' as <- <-.
  destruct (Htree v r q tree Hm Ht) as (Hd & Hu & Hc & Hsz & Hup & Hspread).
  eexists. split; [reflexivity|].
  assert (Hs : sorted_dir (match ty with Call => true | Put => false end)
                          (values_at_0 exp eng args r tree)).
  { apply values_at_0_sorted; try assumption.
    intros i j _. rewrite Hpay. unfold ord.
    destruct ty; [apply call_payoff_mono | apply put_payoff_anti]; apply Hup. }
  pose proof (Hs 0%nat ltac:(lia)) as H1. pose proof (Hs 1%nat ltac:(lia)) as H2.
  unfold ord in H1, H2. unfold node_delta.
  assert (Hpos : 0 < underlying tree 0 2 - underlying tree 0 0) by lra.
  destruct ty.
  - apply Qle_shift_div_l; [exact Hpos|]. rewrite Qmult_0_l. lra.
  - apply Qle_shift_div_r; [exact Hpos|]. rewrite Qmult_0_l. lra.
Qed.

Lemma inject_Z_of_nat_succ j :
  inject_Z (Z.of_nat (S j)) = inject_Z (Z.of_nat j) + 1.
Proof. now rewrite Nat2Z.inj_succ, <- Z.add_1_r, inject_Z_plus. Qed.

Lemma delta_sign_witness :
  exists d, res_delta (snd (calculate exp_first_order (total_builder additive_tree)
                              (sample_engine 100 2) european_call no_results)) = Some d /\ 0 <= d.
Proof.
  apply (delta_sign exp_first_order (total_builder additive_tree) (sample_engine 100 2)
           european_call no_results _ Call 100 eq_refl).
  - intros v r q tree Hm Ht. vm_compute in Hm. injection Hm as <- <- <-.
    injection Ht as <-. repeat split.
    + vm_compute. discriminate.
    + vm_compute. discriminate.
    + vm_compute. discriminate.
    + intros i j. cbn [additive_tree underlying]. rewrite inject_Z_of_nat_succ. lra.
  - vm_compute. reflexivity.
Defined.

(** The rollback ends with the adjustment at step 0. *)
Lemma values_at_0_last_adjust exp eng args r tree :
  exists ws,
    values_at_0 exp eng args r tree =
    adjustValues (call_option eng args) (call_lattice exp eng args r tree) 0 ws.
Proof.
  unfold values_at_0, rollback_to_0, initialize.
  cbn [lat_grid call_lattice call_grid tg_steps].
  generalize (call_option eng args) as o.
  generalize (call_lattice exp eng args r tree) as lat.
  intros lat o.
  destruct (timeSteps_ eng) as [|n].
  - eexists. reflexivity.
  - generalize (adjustValues o lat (S n) (repeat 0 (size (lat_tree lat) (S n)))) as vs.
    induction n as [|n IH]; intro vs.
    + eexists. reflexivity.
    + apply IH.
Qed.

(** An American option whose exercise window (after snapping to the grid)
    contains time 0 is worth, at each of the three nodes at time 0 of the
    call's tree, at least its immediate exercise there; in particular the
    stored value is at least the payoff at the middle node's price. *)
Theorem american_value_ge_exercise exp T eng args s s' ty k
  (Hpay : payoff args = PlainVanillaPayoff ty k)
  (Hex : ex_type (exercise args) = American)
  (Hwin : let st := stoppingTimes (call_option eng args) in
          nth 0 st 0 <= 0 /\ 0 <= nth 1 st 0)
  (H : calculate exp T eng args s = (inr tt, s')) :
  exists v r q tree,
    market_inputs eng args = inr (v, r, q) /\
    T (flat_process eng args v r q) (call_maturity eng args) (timeSteps_ eng) k = inr tree /\
    (forall j, (j < 3)%nat ->
       payoff_value (payoff args) (underlying tree 0 j)
       <= nth j (values_at_0 exp eng args r tree) 0) /\
    exists val, res_value s' = Some val /\
                payoff_value (payoff args) (underlying tree 0 1) <= val.
Proof.
  destruct (calculate_success _ _ _ _ _ _ H)
    as (ty' & k' & v & r & q & tree & th & Hpay' & Hm & Ht & Hlen & _ & ->).
  rewrite Hpay in Hpay'. injection Hpay' as <- <-.
  assert (Hj : forall j, (j < 3)%nat ->
     payoff_value (payoff args) (underlying tree 0 j)
     <= nth j (values_at_0 exp eng args r tree) 0).
  { intros j Hj3.
    pose proof (values_at_0_length exp eng args r tree) as Hsz.
    destruct (values_at_0_last_adjust exp eng args r tree) as [ws Hws].
    rewrite Hws in Hlen, Hsz |- *. rewrite adjustValues_length in Hlen, Hsz.
    unfold adjustValues. cbn [dvo_arguments call_option mkDiscretizedVanillaOption]. rewrite Hex.
    destruct Hwin as [H0 H1].
    replace (Qle_bool _ _ && Qle_bool _ _) with true.
    2:{ symmetry. apply andb_true_intro. split; apply Qle_bool_iff;
        unfold tg_time; change (inject_Z (Z.of_nat 0)) with 0;
        rewrite Qmult_0_r; assumption. }
    unfold applySpecificCondition, lattice_grid.
    rewrite !nth_map_seq by (cbn [call_lattice lat_tree]; lia).
    apply qmax_ge_r. }
  exists v, r, q, tree. split; [exact Hm|]. split; [exact Ht|]. split; [exact Hj|].
  eexists. split; [reflexivity|]. apply Hj. lia.
Qed.

Lemma american_value_ge_exercise_witness :
  exists v r q tree,
    market_inputs (sample_engine 100 2) american_put = inr (v, r, q) /\
    total_builder additive_tree (flat_process (sample_engine 100 2) american_put v r q)
      (call_maturity (sample_engine 100 2) american_put) 2 110 = inr tree /\
    (forall j, (j < 3)%nat ->
       payoff_value (payoff american_put) (underlying tree 0 j)
       <= nth j (values_at_0 exp_first_order (sample_engine 100 2) american_put r tree) 0) /\
    exists val, res_value (snd (calculate exp_first_order (total_builder additive_tree)
                                  (sample_engine 100 2) american_put no_results)) = Some val /\
                payoff_value (payoff american_put) (underlying tree 0 1) <= val.
Proof.
  apply (american_value_ge_exercise exp_first_order (total_builder additive_tree)
           (sample_engine 100 2) american_put no_results _ Put 110 eq_refl eq_refl).
  - split; vm_compute; discriminate.
  - vm_compute. reflexivity.
Defined.

Lemma closest_from_spec g t fuel : forall best i,
  (best < i)%nat ->
  (forall j, (j < i)%nat -> Qabs (tg_time g best - t) <= Qabs (tg_time g j - t)) ->
  (forall j, (j < best)%nat -> Qabs (tg_time g best - t) < Qabs (tg_time g j - t)) ->
  let r := closest_from g t best i fuel in
  (r < i + fuel)%nat /\
  (forall j, (j < i + fuel)%nat -> Qabs (tg_time g r - t) <= Qabs (tg_time g j - t)) /\
  (forall j, (j < r)%nat -> Qabs (tg_time g r - t) < Qabs (tg_time g j - t)).
Proof.
  induction fuel as [|fuel IH]; intros best i Hb Hle Hlt.
  - cbn. rewrite Nat.add_0_r. auto.
  - cbn [closest_from].
    rewrite Nat.add_succ_r, <- Nat.add_succ_l.
    destruct (Qlt_le_dec (Qabs (tg_time g i - t)) (Qabs (tg_time g best - t))) as [L|L];
      apply IH.
    + lia.
    + intros j Hj. destruct (Nat.eq_dec j i) as [->|Ne]; [apply Qle_refl|].
      pose proof (Hle j ltac:(lia)). lra.
    + intros j Hj. destruct (Nat.eq_dec j best) as [->|Ne]; [exact L|].
      destruct (Nat.lt_ge_cases j best) as [Lb|Lb].
      * pose proof (Hlt j Lb). lra.
      * pose proof (Hle j ltac:(lia)). lra.
    + lia.
    + intros j Hj. destruct (Nat.eq_dec j i) as [->|Ne]; [exact L|].
      apply Hle. lia.
    + exact Hlt.
Qed.

(** [closestTime] snaps a time to a point of the grid: the first of the grid
    points nearest to it (the lower one on ties). *)
Theorem closestTime_nearest g t :
  exists b, (b <= tg_steps g)%nat /\ closestTime g t = tg_time g b /\
    (forall j, (j <= tg_steps g)%nat ->
       Qabs (closestTime g t - t) <= Qabs (tg_time g j - t)) /\
    (forall j, (j < b)%nat -> Qabs (closestTime g t - t) < Qabs (tg_time g j - t)).
Proof.
  destruct (closest_from_spec g t (tg_steps g) 0 1 ltac:(lia)) as (Hr & Hle & Hlt).
  - intros j Hj. replace j with 0%nat by lia. apply Qle_refl.
  - intros j Hj. lia.
  - exists (closest_from g t 0 1 (tg_steps g)). unfold closestTime.
    repeat split.
    + lia.
    + intros j Hj. apply Hle. lia.
    + exact Hlt.
Qed.

(** A call whose market data the curves can give, and whose maturity (the
    year fraction from the reference date to the last exercise date) is not
    positive, fails with "negative times not allowed" when the time grid is
    built, before any tree is used, and leaves the results untouched.  The
    last exercise date is then never before the rate curve's reference date:
    an earlier date is rejected by the market-data lookups. *)
Theorem nonpositive_maturity exp T eng args s ty k v r q
  (Hspot : 0 < stateVariable (process_ eng))
  (Hmkt : market_inputs eng args = inr (v, r, q))
  (Hpay : payoff args = PlainVanillaPayoff ty k)
  (Hmat : call_maturity eng args <= 0) :
  (yts_referenceDate (riskFreeRate (process_ eng)) <= lastDate (exercise args))%Z /\
  calculate exp T eng args s = (inl (PreconditionError "negative times not allowed"), s).
Proof.
  split.
  - destruct (market_inputs_lookups _ _ _ _ _ Hmkt) as (_ & Hr & _).
    unfold zeroRate, bindE, checkRange in Hr.
    destruct (Z.ltb_spec (lastDate (exercise args))
                         (yts_referenceDate (riskFreeRate (process_ eng)))); [discriminate | lia].
  - rewrite calculate_outcome, (Qle_bool_pos _ Hspot), Hmkt, Hpay, (Qle_bool_nonpos _ Hmat).
    reflexivity.
Qed.

Lemma nonpositive_maturity_witness :
  (yts_referenceDate (riskFreeRate (process_ (sample_engine 100 2)))
   <= lastDate (exercise expired_call))%Z /\
  calculate exp_first_order (total_builder shifted_tree) (sample_engine 100 2) expired_call
    no_results =
  (inl (PreconditionError "negative times not allowed"), no_results).
Proof.
  apply (nonpositive_maturity exp_first_order (total_builder shifted_tree) (sample_engine 100 2)
           expired_call no_results Call 100 (1 # 5) (1 # 20) 0).
  - reflexivity.
  - vm_compute. reflexivity.
  - reflexivity.
  - vm_compute. discriminate.
Defined.



Lemma inject_Z_of_nat_nonzero n : (0 < n)%nat -> ~ inject_Z (Z.of_nat n) == 0.
Proof.
  intros Hn E. unfold Qeq in E. cbn [Qnum Qden inject_Z] in E. lia.
Qed.

Lemma tg_time_end g : (0 < tg_steps g)%nat -> tg_time g (tg_steps g) == tg_end g.
Proof.
  intro Hn. unfold tg_time, tg_dt. field. now apply inject_Z_of_nat_nonzero.
Qed.

Lemma tg_time_inj g i j :
  0 < tg_end g -> (0 < tg_steps g)%nat -> tg_time g i == tg_time g j -> i = j.
Proof.
  intros He Hn E. unfold tg_time in E.
  assert (Hdt : ~ tg_dt g == 0).
  { unfold tg_dt. intro Z0.
    assert (Hpos : 0 < tg_end g / inject_Z (Z.of_nat (tg_steps g))).
    { apply Qlt_shift_div_l.
      - unfold Qlt. cbn [Qnum Qden inject_Z]. lia.
      - now rewrite Qmult_0_l. }
    rewrite Z0 in Hpos. discriminate. }
  assert (E' : inject_Z (Z.of_nat i) == inject_Z (Z.of_nat j))
    by exact (proj1 (Qmult_inj_l _ _ _ Hdt) E).
  pose proof (proj1 (inject_Z_injective _ _) E'). lia.
Qed.

Lemma closestTime_end g :
  (0 < tg_steps g)%nat -> closestTime g (tg_end g) == tg_end g.
Proof.
  intro Hn. destruct (closestTime_nearest g (tg_end g)) as (b & _ & _ & Hle & _).
  specialize (Hle (tg_steps g) (le_n _)).
  pose proof (tg_time_end g Hn) as E.
  assert (Z0 : tg_time g (tg_steps g) - tg_end g == 0) by (rewrite E; ring).
  rewrite Z0 in Hle. change (Qabs 0) with 0 in Hle.
  apply Qabs_Qle_condition in Hle. lra.
Qed.

Lemma rollback_steps_no_adjust o lat k vs :
  (forall i ws, (i < k)%nat -> adjustValues o lat i ws = ws) ->
  rollback_steps o lat k vs = stepback_only lat k vs.
Proof.
  revert vs. induction k as [|k IH]; intros vs Hadj; [reflexivity|].
  cbn [rollback_steps stepback_only]. rewrite Hadj by lia.
  apply IH. intros i ws Hi. apply Hadj. lia.
Qed.

(** For a European option (one exercise date) with a positive maturity and
    at least one step, the exercise condition is applied at maturity only:
    the values at time 0 are the maturity payoffs [max(0, payoff)] at the
    last step's nodes, stepped back with discounting and no early exercise. *)
Theorem european_discounted_expectation exp eng args r tree d
  (Hex : ex_type (exercise args) = European)
  (Hd : ex_dates (exercise args) = [d])
  (Hmat : 0 < call_maturity eng args)
  (HN : (1 <= timeSteps_ eng)%nat) :
  values_at_0 exp eng args r tree =
  stepback_only (call_lattice exp eng args r tree) (timeSteps_ eng)
    (map (fun j => qmax 0 (payoff_value (payoff args) (underlying tree (timeSteps_ eng) j)))
         (seq 0 (size tree (timeSteps_ eng)))).
Proof.
  set (o := call_option eng args).
  set (lat := call_lattice exp eng args r tree).
  set (g := call_grid eng args).
  assert (Hst : nth 0 (stoppingTimes o) 0 == tg_end g).
  { unfold o, call_option. cbn [stoppingTimes mkDiscretizedVanillaOption]. rewrite Hd.
    cbn [map nth]. unfold process_time.
    replace (yearFraction _ _ d) with (tg_end g)
      by (unfold g, call_grid, call_maturity, lastDate; cbn; now rewrite Hd).
    apply closestTime_end. exact HN. }
  assert (Hon : forall i, isOnTime lat i (nth 0 (stoppingTimes o) 0) = true <->
                          i = timeSteps_ eng).
  { intro i. unfold isOnTime. rewrite Qeq_bool_iff, Hst. split.
    - intro E. change (timeSteps_ eng) with (tg_steps g).
      apply (tg_time_inj g); [exact Hmat | exact HN|].
      change (lat_grid lat) with g in E. rewrite E. symmetry. now apply tg_time_end.
    - intros ->. now apply tg_time_end. }
  assert (Hadj : forall i ws, adjustValues o lat i ws =
                 if isOnTime lat i (nth 0 (stoppingTimes o) 0)
                 then applySpecificCondition o lat i ws else ws).
  { intros i ws. unfold adjustValues. cbn [dvo_arguments]. unfold o at 1, call_option.
    cbn [dvo_arguments mkDiscretizedVanillaOption]. now rewrite Hex. }
  unfold values_at_0, rollback_to_0, initialize. fold o lat.
  change (tg_steps (lat_grid lat)) with (timeSteps_ eng).
  rewrite rollback_steps_no_adjust.
  2:{ intros i ws Hi. rewrite Hadj.
      destruct (isOnTime lat i _) eqn:E; [|reflexivity].
      apply Hon in E. exfalso. lia. }
  f_equal.
  rewrite Hadj. replace (isOnTime lat _ _) with true by (symmetry; now apply Hon).
  unfold applySpecificCondition, lattice_grid. rewrite repeat_length.
  apply map_ext_in. intros j Hj. apply in_seq in Hj.
  unfold lat. cbn [call_lattice lat_tree].
  rewrite nth_repeat, nth_map_seq by lia. reflexivity.
Qed.

Lemma european_discounted_expectation_witness :
  let tree := shifted_tree (sample_process 100) 1 2 100 in
  values_at_0 exp_first_order (sample_engine 100 2) european_call (1 # 20) tree =
  stepback_only (call_lattice exp_first_order (sample_engine 100 2) european_call (1 # 20) tree) 2
    (map (fun j => qmax 0 (payoff_value (payoff european_call) (underlying tree 2 j)))
       (seq 0 (size tree 2))).
Proof.
  apply (european_discounted_expectation exp_first_order (sample_engine 100 2)
           european_call (1 # 20) (shifted_tree (sample_process 100) 1 2 100) 365%Z).
  - reflexivity.
  - reflexivity.
  - vm_compute. reflexivity.
  - cbn. lia.
Defined.

Lemma stepback_ext lat1 lat2 i vs :
  size (lat_tree lat1) i = size (lat_tree lat2) i ->
  lat_pd lat1 = lat_pd lat2 -> lat_pu lat1 = lat_pu lat2 ->
  lat_discount lat1 = lat_discount lat2 ->
  stepback lat1 i vs = stepback lat2 i vs.
Proof. intros Hs Hd Hu Hc. unfold stepback. now rewrite Hs, Hd, Hu, Hc. Qed.

Lemma applySpecificCondition_ext o lat1 lat2 i vs :
  size (lat_tree lat1) i = size (lat_tree lat2) i ->
  (forall j, underlying (lat_tree lat1) i j = underlying (lat_tree lat2) i j) ->
  applySpecificCondition o lat1 i vs = applySpecificCondition o lat2 i vs.
Proof.
  intros Hs Hu. unfold applySpecificCondition, lattice_grid. rewrite Hs.
  now rewrite (map_ext _ _ Hu).
Qed.

Lemma adjustValues_ext o lat1 lat2 i vs :
  lat_grid lat1 = lat_grid lat2 ->
  size (lat_tree lat1) i = size (lat_tree lat2) i ->
  (forall j, underlying (lat_tree lat1) i j = underlying (lat_tree lat2) i j) ->
  adjustValues o lat1 i vs = adjustValues o lat2 i vs.
Proof.
  intros Hg Hs Hu. unfold adjustValues, isOnTime. rewrite Hg.
  destruct (ex_type _).
  - destruct (Qeq_bool _ _); [now apply applySpecificCondition_ext | reflexivity].
  - destruct (_ && _); [now apply applySpecificCondition_ext | reflexivity].
  - generalize (stoppingTimes o) as st. intro st. revert vs.
    induction st as [|t st IH]; intro vs; [reflexivity|].
    cbn [fold_left]. rewrite applySpecificCondition_ext with (lat2 := lat2) by assumption.
    apply IH.
Qed.

Lemma rollback_steps_ext o lat1 lat2 k vs :
  lat_grid lat1 = lat_grid lat2 ->
  (forall i, size (lat_tree lat1) i = size (lat_tree lat2) i) ->
  (forall i j, underlying (lat_tree lat1) i j = underlying (lat_tree lat2) i j) ->
  lat_pd lat1 = lat_pd lat2 -> lat_pu lat1 = lat_pu lat2 ->
  lat_discount lat1 = lat_discount lat2 ->
  rollback_steps o lat1 k vs = rollback_steps o lat2 k vs.
Proof.
  intros Hg Hs Hu Hd Hp Hc. revert vs. induction k as [|k IH]; intro vs; [reflexivity|].
  cbn [rollback_steps]. rewrite IH.
  now rewrite (stepback_ext lat1 lat2), (adjustValues_ext o lat1 lat2).
Qed.

(** The lattice reads the tree's branch probabilities at the root only
    ([pd_], [pu_] of [BlackScholesLattice]) and uses them at every step: two
    tree builders that fail alike, and whose trees agree on node counts,
    prices and the two root probabilities, give the same pricing call,
    whatever probabilities the trees carry at later steps. *)
Theorem only_root_probabilities exp T1 T2 eng args s
  (Hsame : forall p m n k,
     match T1 p m n k, T2 p m n k with
     | inl e1, inl e2 => e1 = e2
     | inr t1, inr t2 =>
         (forall i, size t1 i = size t2 i) /\
         (forall i j, underlying t1 i j = underlying t2 i j) /\
         probability t1 0 0 0 = probability t2 0 0 0 /\
         probability t1 0 0 1 = probability t2 0 0 1
     | _, _ => False
     end) :
  calculate exp T1 eng args s = calculate exp T2 eng args s.
Proof.
  rewrite !calculate_outcome.
  destruct (Qle_bool _ 0); [reflexivity|].
  destruct (market_inputs eng args) as [e|[[v r] q]]; [reflexivity|].
  destruct (payoff args) as [ty k|f]; [|reflexivity].
  destruct (Qle_bool (call_maturity eng args) 0); [reflexivity|].
  specialize (Hsame (flat_process eng args v r q) (call_maturity eng args) (timeSteps_ eng) k).
  destruct (T1 _ _ _ _) as [e1|t1], (T2 _ _ _ _) as [e2|t2];
    try contradiction; [now subst|].
  destruct Hsame as (Hs & Hu & Hd & Hp).
  assert (Ev : values_at_0 exp eng args r t1 = values_at_0 exp eng args r t2).
  { unfold values_at_0, rollback_to_0, initialize.
    cbn [call_lattice lat_tree lat_grid].
    rewrite Hs. rewrite (adjustValues_ext _ _ (call_lattice exp eng args r t2));
      try reflexivity; try apply Hu; try apply Hs.
    apply rollback_steps_ext; cbn [call_lattice lat_tree lat_grid lat_pd lat_pu lat_discount];
      try reflexivity; assumption. }
  cbv zeta. rewrite Ev.
  destruct (Nat.eqb _ 3); [|reflexivity].
  unfold call_theta, greeks_partial, greeks_results, node_delta, node_gamma.
  now rewrite (Hu 0%nat 2%nat), (Hu 0%nat 0%nat).
Qed.

Lemma only_root_probabilities_witness :
  calculate exp_first_order (total_builder shifted_tree) (sample_engine 100 2) european_call
    no_results =
  calculate exp_first_order (total_builder shifted_tree_varying) (sample_engine 100 2)
    european_call no_results.
Proof.
  apply only_root_probabilities.
  intros p m n k. unfold total_builder. repeat split; reflexivity.
Defined.

(** A pricing call never reads [results_]: its outcome is the same whatever
    results an earlier call left, and a successful call overwrites all four
    fields, so nothing from an earlier call survives it. *)
Theorem outcome_ignores_prior_results exp T eng args s1 s2 :
  fst (calculate exp T eng args s1) = fst (calculate exp T eng args s2) /\
  match calculate exp T eng args s1, calculate exp T eng args s2 with
  | (inr _, r1), (inr _, r2) => r1 = r2
  | _, _ => True
  end.
Proof.
  rewrite !calculate_outcome.
  destruct (Qle_bool _ 0); [split; [reflexivity | exact I]|].
  destruct (market_inputs eng args) as [e|[[v r] q]]; [split; [reflexivity | exact I]|].
  destruct (payoff args) as [ty k|f]; [|split; [reflexivity | exact I]].
  destruct (Qle_bool (call_maturity eng args) 0); [split; [reflexivity | exact I]|].
  destruct (T _ _ _ _) as [e|tree]; [split; [reflexivity | exact I]|].
  cbv zeta. destruct (Nat.eqb _ 3); [|split; [reflexivity | exact I]].
  destruct (call_theta _ _ _); split; first [reflexivity | exact I].
Qed.
